(** * sample.cpp: a transform-then-filter pipeline over lazy range views

    The program builds a [std::vector<int>], a [std::views::transform]
    view that squares its elements, and a [std::views::filter] view that
    keeps the even squares, and prints both views with range-based [for]
    loops.

    The embedding follows the code: [int] is a 32-bit two's complement
    integer carried by [Z]; the views are records holding what the C++
    view objects hold; the iterator operations ([begin], [end], [*it],
    [++it]) are functions in a state monad over the vector, the output
    stream and a call counter; a range-based [for] is a loop over those
    operations. *)

From Stdlib Require Import ZArith List String Ascii Bool Lia DecimalString.
Import ListNotations.

Set Implicit Arguments.

(** ** The type [int] *)

Module Int.

Definition half_modulus : Z := 2 ^ 31.
Definition modulus : Z := 2 ^ 32.

Definition min_int : Z := - half_modulus.
Definition max_int : Z := half_modulus - 1.

Definition in_range (z : Z) : Prop := (min_int <= z <= max_int)%Z.

(** The value a 32-bit two's complement register holds for [z]. *)
Definition wrap (z : Z) : Z :=
  ((z + half_modulus) mod modulus - half_modulus)%Z.

(** [a * b] on [int].  The product is exact whenever it fits; where it
    does not fit the language leaves the result open and the model takes
    the two's complement result. *)
Definition mul (a b : Z) : Z := wrap (a * b).

(** [a % b] on [int]: the remainder of the division that truncates
    towards zero, so it has the sign of [a]. *)
Definition rem (a b : Z) : Z := Z.rem a b.

(** [operator<<(int)]: decimal digits, with a leading minus sign for a
    negative value. *)
Definition to_string (n : Z) : string :=
  NilZero.string_of_int (Z.to_int n).

End Int.

(** ** [concept Number]

    [template<typename T> concept Number = std::is_arithmetic_v<T>;]
    The lambda [square] only needs the multiplication of the type. *)

Class Number (T : Type) := { times : T -> T -> T }.

#[global] Instance Number_int : Number Z := { times := Int.mul }.

(** ** Program state *)

(** What the run can observe: the contents of the vector [numbers], the
    characters written to [std::cout] so far, and (ghost) how many times a
    transformation function object has been invoked. *)
Record world : Type := World {
  numbers : list Z;
  cout : string;
  calls : nat
}.

(** The current world and (ghost) the trail of worlds produced by every
    effect of the run so far, newest first. *)
Record state : Type := State {
  now : world;
  trail : list world
}.

Inductive outcome (X : Type) : Type :=
| Done (x : X) (st : state)
| Undefined
| OutOfFuel.

Arguments Undefined {X}.
Arguments OutOfFuel {X}.

Definition M (X : Type) : Type := state -> outcome X.

Definition ret {X} (x : X) : M X := fun st => Done x st.

Definition bind {X Y} (m : M X) (k : X -> M Y) : M Y :=
  fun st =>
    match m st with
    | Done x st' => k x st'
    | Undefined => Undefined
    | OutOfFuel => OutOfFuel
    end.

Definition undefined {X} : M X := fun _ => Undefined.
Definition out_of_fuel {X} : M X := fun _ => OutOfFuel.

Declare Scope monad_scope.
Delimit Scope monad_scope with monad.
Notation "x <- m ;; k" := (bind m (fun x => k))
  (at level 61, m at next level, right associativity) : monad_scope.
Notation "' pat <- m ;; k" := (bind m (fun x => match x with pat => k end))
  (at level 61, pat pattern, m at next level, right associativity) : monad_scope.
Notation "m ;; k" := (bind m (fun _ => k))
  (at level 61, right associativity) : monad_scope.
Open Scope monad_scope.

Definition get : M world := fun st => Done (now st) st.

(** Every effect goes through [modify], which also records the new world. *)
Definition step_state (f : world -> world) (st : state) : state :=
  let w := f (now st) in {| now := w; trail := w :: trail st |}.

Definition modify (f : world -> world) : M unit :=
  fun st => Done tt (step_state f st).

Definition count_call (w : world) : world :=
  {| numbers := numbers w; cout := cout w; calls := S (calls w) |}.

Definition write (t : string) (w : world) : world :=
  {| numbers := numbers w; cout := (cout w ++ t)%string; calls := calls w |}.

Definition construct (l : list Z) (w : world) : world :=
  {| numbers := l; cout := cout w; calls := calls w |}.

(** (ghost) one invocation of a transformation function object. *)
Definition tick : M unit := modify count_call.

(** [std::cout << "..."], [std::cout << c], [std::cout << n]. *)
Definition put_string (t : string) : M unit := modify (write t).
Definition put_char (c : ascii) : M unit := modify (write (String c EmptyString)).
Definition put_int (n : Z) : M unit := modify (write (Int.to_string n)).

(** [std::vector<int> numbers = {...};] *)
Definition vector_init (l : list Z) : M unit := modify (construct l).

(** The state before [main] starts: no vector yet, nothing printed. *)
Definition boot : state :=
  {| now := {| numbers := []; cout := EmptyString; calls := 0 |}; trail := [] |}.

(** ** Ranges

    A range of elements [E] held in a view object [V].  An iterator of
    every view built over the vector is a position in the vector.
    [begin_] returns the view as well, because [filter_view::begin]
    stores the position it found inside the view object. *)

Class Range (V E : Type) := {
  begin_ : V -> M (nat * V);
  end_ : V -> M nat;
  deref : V -> nat -> M E;
  incr : V -> nat -> M nat
}.

(** [std::ranges::find_if(first, last, pred)]:
    [while (first != last && !pred( *first)) ++first; return first;] *)
Fixpoint find_if {V E} `{Range V E} (fuel : nat) (v : V) (first last : nat)
    (pred : E -> bool) : M nat :=
  if Nat.eqb first last then ret first
  else
    match fuel with
    | O => out_of_fuel
    | S fuel' =>
        x <- deref v first ;;
        if pred x then ret first
        else (next <- incr v first ;; find_if fuel' v next last pred)
    end.

(** The loop of a range-based [for]:
    [for (; it != last; ++it) { auto n = *it; body }], where [acc] is what
    the body updates. *)
Fixpoint for_loop {V E S} `{Range V E} (fuel : nat) (v : V) (it last : nat)
    (body : S -> E -> M S) (acc : S) : M S :=
  if Nat.eqb it last then ret acc
  else
    match fuel with
    | O => out_of_fuel
    | S fuel' =>
        n <- deref v it ;;
        acc' <- body acc n ;;
        next <- incr v it ;;
        for_loop fuel' v next last body acc'
    end.

(** [for (auto n : v) body]: [begin] and [end] are evaluated once, the
    distance between them bounds the number of rounds. *)
Definition range_for {V E S} `{Range V E} (v : V) (body : S -> E -> M S)
    (acc : S) : M (S * V) :=
  '(it, v') <- begin_ v ;;
  last <- end_ v' ;;
  r <- for_loop (last - it) v' it last body acc ;;
  ret (r, v').

(** The elements a full iteration of [v] yields, in iteration order. *)
Definition collect {V E} `{Range V E} (v : V) : M (list E * V) :=
  range_for v (fun acc n => ret (acc ++ [n])) [].

(** *** [std::ranges::ref_view<std::vector<int>>]: refers to [numbers] *)

Inductive ref_view : Type := RefView.

#[global] Instance Range_ref_view : Range ref_view Z := {
  begin_ v := ret (0, v);
  end_ v := w <- get ;; ret (List.length (numbers w));
  deref v i :=
    w <- get ;;
    match nth_error (numbers w) i with
    | Some x => ret x
    | None => undefined
    end;
  incr v i := ret (S i)
}.

(** *** [std::ranges::transform_view]: the base view and the function *)

Record transform_view (V B C : Type) : Type := TransformView {
  t_base : V;
  t_fun : B -> C
}.

#[global] Instance Range_transform_view {V B C} `{Range V B} :
    Range (transform_view V B C) C := {
  begin_ v :=
    '(it, b) <- begin_ (t_base v) ;;
    ret (it, {| t_base := b; t_fun := t_fun v |});
  end_ v := end_ (t_base v);
  deref v i := x <- deref (t_base v) i ;; tick ;; ret (t_fun v x);
  incr v i := incr (t_base v) i
}.

(** *** [std::ranges::filter_view]: the base view, the predicate and the
    cached result of [begin] *)

Record filter_view (V B : Type) : Type := FilterView {
  f_base : V;
  f_pred : B -> bool;
  f_cached_begin : option nat
}.

#[global] Instance Range_filter_view {V B} `{Range V B} :
    Range (filter_view V B) B := {
  begin_ v :=
    match f_cached_begin v with
    | Some it => ret (it, v)
    | None =>
        '(first, b) <- begin_ (f_base v) ;;
        last <- end_ b ;;
        it <- find_if (last - first) b first last (f_pred v) ;;
        ret (it, {| f_base := b; f_pred := f_pred v; f_cached_begin := Some it |})
    end;
  end_ v := end_ (f_base v);
  deref v i := deref (f_base v) i;
  incr v i :=
    next <- incr (f_base v) i ;;
    last <- end_ (f_base v) ;;
    find_if (last - next) (f_base v) next last (f_pred v)
}.

(** [numbers | std::views::transform(f)] and [r | std::views::filter(p)]. *)
Definition transform {V B C} (base : V) (f : B -> C) : transform_view V B C :=
  {| t_base := base; t_fun := f |}.

Definition filter_ {V B} (base : V) (p : B -> bool) : filter_view V B :=
  {| f_base := base; f_pred := p; f_cached_begin := None |}.

(** ** The program *)

(** [auto square = [](Number auto n) { return n * n; };] *)
Definition square {T} `{Number T} (n : T) : T := times n n.

(** [[](int n) { return n % 2 == 0; }] *)
Definition is_even (n : Z) : bool := (Int.rem n 2 =? 0)%Z.

Definition source : list Z := [1; 2; 3; 4; 5]%Z.

Definition squared_numbers : transform_view ref_view Z Z :=
  transform RefView square.

Definition even_squared_numbers : filter_view (transform_view ref_view Z Z) Z :=
  filter_ squared_numbers is_even.

Definition newline : ascii := ascii_of_nat 10.

(** [for (auto n : v) { std::cout << n << ' '; }] *)
Definition print_all {V} `{Range V Z} (v : V) : M (unit * V) :=
  range_for v (fun _ n => put_int n ;; put_char " "%char) tt.

Definition main : M Z :=
  vector_init source ;;
  put_string "Squared Numbers: " ;;
  print_all squared_numbers ;;
  put_char newline ;;
  put_string "Even Squared Numbers: " ;;
  print_all even_squared_numbers ;;
  put_char newline ;;
  ret 0%Z.

(** The text [print_all] writes for the elements [l]. *)
Definition render (l : list Z) : string :=
  fold_right (fun n t => (Int.to_string n ++ " " ++ t)%string) EmptyString l.

(** ** Laws of the views *)

(** The state after [k] invocations of a transformation function. *)
Fixpoint ticks (k : nat) (st : state) : state :=
  match k with
  | O => st
  | S k' => step_state count_call (ticks k' st)
  end.

(** A view whose iterators are exactly the positions [0 .. n] of its [n]
    elements (what [ref_view] of a vector and [transform_view] over such a
    view are): it denotes the list [elems v l] when the vector holds [l],
    and reading one element invokes [cost v] transformation functions. *)
Class Indexed (V E : Type) `{Range V E} := {
  elems : V -> list Z -> list E;
  cost : V -> nat;
  begin_law : forall v st, begin_ v st = Done (0, v) st;
  end_law : forall v st,
    end_ v st = Done (List.length (elems v (numbers (now st)))) st;
  incr_law : forall v i st, incr v i st = Done (S i) st;
  deref_law : forall v i st,
    deref v i st =
    match nth_error (elems v (numbers (now st))) i with
    | Some x => Done x (ticks (cost v) st)
    | None => Undefined
    end
}.

(** ** The vector and the transform view are indexed *)

#[global, refine] Instance Indexed_ref_view : Indexed (V := ref_view) (E := Z) := {
  elems _ l := l;
  cost _ := 0
}.
Proof.
  - reflexivity.
  - reflexivity.
  - reflexivity.
  - intros v i st. simpl. unfold bind, get.
    destruct (nth_error (numbers (now st)) i); reflexivity.
Defined.

#[global, refine] Instance Indexed_transform_view {V B C} `{Indexed V B} :
    Indexed (V := transform_view V B C) (E := C) := {
  elems v l := map (t_fun v) (elems (t_base v) l);
  cost v := S (cost (t_base v))
}.
Proof.
  - intros [b f] st. simpl. unfold bind. now rewrite begin_law.
  - intros [b f] st. simpl. rewrite end_law. now rewrite length_map.
  - intros [b f] i st. simpl. apply incr_law.
  - intros [b f] i st. simpl. unfold bind. rewrite deref_law.
    rewrite nth_error_map.
    destruct (nth_error (elems b (numbers (now st))) i); reflexivity.
Defined.

(** Position of the first element of [l] that satisfies [p], [length l]
    when there is none. *)
Fixpoint first_match {E} (p : E -> bool) (l : list E) : nat :=
  match l with
  | [] => 0
  | x :: t => if p x then 0 else S (first_match p t)
  end.

(** What a full iteration of the filter view leaves in its cache. *)
Definition cached {V B} (v : filter_view V B) (it : nat) : filter_view V B :=
  {| f_base := f_base v; f_pred := f_pred v; f_cached_begin := Some it |}.

(** The loop invariant of [print_all] started in [st0]: the text of the
    elements handed over so far has been appended to what [std::cout]
    held, and the vector is as it was. *)
Definition printed (st0 : state) (done : list Z) (_ : unit) (st : state) : Prop :=
  cout (now st) = (cout (now st0) ++ render done)%string /\
  numbers (now st) = numbers (now st0).

(** [out] is [input] with some elements left out, nothing moved. *)
Inductive subsequence {E : Type} : list E -> list E -> Prop :=
| subsequence_nil : subsequence [] []
| subsequence_skip x out input :
    subsequence out input -> subsequence out (x :: input)
| subsequence_keep x out input :
    subsequence out input -> subsequence (x :: out) (x :: input).

(** The number of elements a full iteration of [v] yields when the run
    is in the world [w]. *)
Definition seq_length {V E} `{Range V E} (v : V) (w : world) : option nat :=
  match collect v {| now := w; trail := [] |} with
  | Done (l, _) _ => Some (List.length l)
  | _ => None
  end.

(** The state in which [main] ends. *)
Definition final_state : state :=
  Eval vm_compute in
    match main boot with
    | Done _ st => st
    | _ => boot
    end.

(** ** Counting the reads of a filter view *)

(** How many elements of [l] [find_if] reads: those before the first
    match and the match itself, all of them when there is no match. *)
Fixpoint examined {E} (p : E -> bool) (l : list E) : nat :=
  match l with
  | [] => 0
  | x :: t => if p x then 1 else S (examined p t)
  end.

(** How many elements the loop over a filter view reads once its
    iterator stands on the first element of [suf]: every matching element
    is read again when the loop dereferences the iterator, and every
    element after the first is read once by the search in [++it]. *)
Definition reads_from {E} (p : E -> bool) (suf : list E) : nat :=
  match suf with
  | [] => 0
  | _ :: t => List.length t + List.length (filter p suf)
  end.

(** ** [main] after the declaration of the vector

    The statements of [main] from the first [std::cout <<] to
    [return 0;]. *)
Definition report : M Z :=
  put_string "Squared Numbers: " ;;
  print_all squared_numbers ;;
  put_char newline ;;
  put_string "Even Squared Numbers: " ;;
  print_all even_squared_numbers ;;
  put_char newline ;;
  ret 0%Z.

(** The two lines written for a vector that holds [l]. *)
Definition two_lines (l : list Z) : string :=
  ("Squared Numbers: " ++ render (map square l) ++ String newline
   ("Even Squared Numbers: " ++ render (map square (filter is_even l)) ++
    String newline ""))%string.

(** * Properties *)

(** ** The state after ticks *)

Lemma numbers_ticks : forall k st, numbers (now (ticks k st)) = numbers (now st).
Proof. induction k; intros st; simpl; auto. Qed.

Lemma cout_ticks : forall k st, cout (now (ticks k st)) = cout (now st).
Proof. induction k; intros st; simpl; auto. Qed.

Lemma calls_ticks : forall k st, calls (now (ticks k st)) = calls (now st) + k.
Proof. induction k; intros st; simpl; [lia | rewrite IHk; lia]. Qed.

Lemma ticks_add : forall a b st, ticks a (ticks b st) = ticks (a + b) st.
Proof. induction a; intros b st; simpl; [reflexivity | now rewrite IHa]. Qed.

Lemma tick_ticks : forall st, tick st = Done tt (ticks 1 st).
Proof. reflexivity. Qed.

(** ** Lists: the first match *)

Lemma first_match_le {E} (p : E -> bool) (l : list E) :
  first_match p l <= List.length l.
Proof. induction l as [|x t IH]; simpl; [lia | destruct (p x); lia]. Qed.

Lemma first_match_skipn {E} (p : E -> bool) (l : list E) :
  first_match p (skipn (first_match p l) l) = 0.
Proof.
  induction l as [|x t IH]; simpl; [reflexivity |].
  destruct (p x) eqn:Hp; simpl; [now rewrite Hp | exact IH].
Qed.

Lemma filter_skipn_first_match {E} (p : E -> bool) (l : list E) :
  filter p (skipn (first_match p l) l) = filter p l.
Proof.
  induction l as [|x t IH]; simpl; [reflexivity |].
  destruct (p x) eqn:Hp; simpl; [now rewrite Hp | exact IH].
Qed.

Lemma nth_error_middle {E} (pre suf : list E) (x : E) :
  nth_error (pre ++ x :: suf) (List.length pre) = Some x.
Proof. rewrite nth_error_app2, Nat.sub_diag by lia. reflexivity. Qed.

Lemma eqb_length_app {E} (pre suf : list E) (x : E) :
  Nat.eqb (List.length pre) (List.length (pre ++ x :: suf)) = false.
Proof. apply Nat.eqb_neq. rewrite length_app. simpl. lia. Qed.

(** ** Loops over an indexed view *)

Section IndexedLoops.

Context {V E : Type} `{Indexed V E}.

(** [find_if] stops at the first match of what is left, after reading
    only elements of the view. *)
Lemma find_if_indexed (v : V) (p : E -> bool) :
  forall suf pre st fuel,
    elems v (numbers (now st)) = pre ++ suf ->
    List.length suf <= fuel ->
    exists k,
      find_if fuel v (List.length pre) (List.length (pre ++ suf)) p st
      = Done (List.length pre + first_match p suf) (ticks k st).
Proof.
  induction suf as [|x t IH]; intros pre st fuel Hl Hf.
  - exists 0. rewrite app_nil_r.
    destruct fuel; simpl; rewrite Nat.eqb_refl, Nat.add_0_r; reflexivity.
  - destruct fuel as [|fuel]; [simpl in Hf; lia |].
    simpl find_if. rewrite eqb_length_app. unfold bind.
    rewrite deref_law, Hl, nth_error_middle. simpl first_match.
    destruct (p x) eqn:Hp.
    + exists (cost v). rewrite Nat.add_0_r. reflexivity.
    + rewrite incr_law.
      destruct (IH (pre ++ [x]) (ticks (cost v) st) fuel) as [k Hk].
      * rewrite numbers_ticks, Hl, <- app_assoc. reflexivity.
      * simpl in Hf. lia.
      * exists (k + cost v).
        rewrite <- app_assoc in Hk. simpl app in Hk.
        rewrite length_app in Hk. simpl List.length in Hk.
        replace (List.length pre + 1) with (S (List.length pre)) in Hk by lia.
        rewrite Hk, ticks_add. f_equal. lia.
Qed.

Variable S' : Type.
Variable body : S' -> E -> M S'.

(** [Inv done acc st]: the elements [done] have been handed to the loop
    body, which has reached [acc] and the state [st]. *)
Variable Inv : list E -> S' -> state -> Prop.

Section Direct.

Variable v : V.

Hypothesis body_ok : forall done acc x st,
  Inv done acc st ->
  exists acc' st',
    body acc x (ticks (cost v) st) = Done acc' st' /\
    Inv (done ++ [x]) acc' st' /\
    numbers (now st') = numbers (now st).

Lemma for_loop_indexed :
  forall suf pre done acc st fuel,
    elems v (numbers (now st)) = pre ++ suf ->
    List.length suf <= fuel ->
    Inv done acc st ->
    exists acc' st',
      for_loop fuel v (List.length pre) (List.length (pre ++ suf)) body acc st
      = Done acc' st' /\
      Inv (done ++ suf) acc' st' /\
      numbers (now st') = numbers (now st).
Proof.
  induction suf as [|x t IH]; intros pre done acc st fuel Hl Hf HI.
  - exists acc, st. rewrite !app_nil_r.
    destruct fuel; simpl; rewrite Nat.eqb_refl; auto.
  - destruct fuel as [|fuel]; [simpl in Hf; lia |].
    simpl for_loop. rewrite eqb_length_app. unfold bind.
    rewrite deref_law, Hl, nth_error_middle.
    destruct (body_ok x HI) as (acc1 & st1 & Hb & HI1 & Hn1).
    rewrite Hb, incr_law.
    destruct (IH (pre ++ [x]) (done ++ [x]) acc1 st1 fuel) as (acc2 & st2 & Hr & HI2 & Hn2).
    + rewrite Hn1, Hl, <- app_assoc. reflexivity.
    + simpl in Hf. lia.
    + exact HI1.
    + exists acc2, st2.
      rewrite <- !app_assoc in *. simpl app in *.
      rewrite length_app in Hr. simpl List.length in Hr.
      replace (List.length pre + 1) with (S (List.length pre)) in Hr by lia.
      rewrite length_app in *. simpl List.length in *.
      rewrite Hr. repeat split; [exact HI2 | congruence].
Qed.

(** A range-based [for] over an indexed view hands every element to
    the body, in order, and ends. *)
Lemma range_for_indexed :
  forall acc st,
    Inv [] acc st ->
    exists acc' st',
      range_for v body acc st = Done (acc', v) st' /\
      Inv (elems v (numbers (now st))) acc' st' /\
      numbers (now st') = numbers (now st).
Proof.
  intros acc st HI. unfold range_for, bind.
  rewrite begin_law, end_law, Nat.sub_0_r.
  destruct (@for_loop_indexed (elems v (numbers (now st))) [] [] acc st
              (List.length (elems v (numbers (now st)))))
    as (acc' & st' & Hr & HI' & Hn); auto.
  simpl in Hr, HI'. rewrite Hr. exists acc', st'. auto.
Qed.

End Direct.

End IndexedLoops.

(** ** Loops over a filter view of an indexed view *)

Section FilterLoops.

Context {V B : Type} `{Indexed V B}.

Lemma find_if_at (b : V) (p : B -> bool) :
  forall suf pre st fuel i n,
    elems b (numbers (now st)) = pre ++ suf ->
    i = List.length pre ->
    n = i + List.length suf ->
    List.length suf <= fuel ->
    exists k, find_if fuel b i n p st = Done (i + first_match p suf) (ticks k st).
Proof.
  intros suf pre st fuel i n Hl -> -> Hf.
  rewrite <- length_app. now apply find_if_indexed.
Qed.

Variable S' : Type.
Variable body : S' -> B -> M S'.
Variable Inv : list B -> S' -> state -> Prop.
Variable b : V.
Variable p : B -> bool.

Hypothesis inv_tick : forall done acc st,
  Inv done acc st -> Inv done acc (step_state count_call st).

Hypothesis body_ok : forall done acc x st,
  Inv done acc st ->
  p x = true ->
  exists acc' st',
    body acc x st = Done acc' st' /\
    Inv (done ++ [x]) acc' st' /\
    numbers (now st') = numbers (now st).

Lemma inv_ticks : forall k done acc st,
  Inv done acc st -> Inv done acc (ticks k st).
Proof. induction k; intros; simpl; auto. Qed.

Lemma for_loop_filter :
  forall m suf, List.length suf <= m ->
  forall pre done acc st fuel c i n,
    elems b (numbers (now st)) = pre ++ suf ->
    i = List.length pre ->
    n = i + List.length suf ->
    first_match p suf = 0 ->
    List.length suf <= fuel ->
    Inv done acc st ->
    exists acc' st',
      for_loop fuel {| f_base := b; f_pred := p; f_cached_begin := c |}
        i n body acc st = Done acc' st' /\
      Inv (done ++ filter p suf) acc' st' /\
      numbers (now st') = numbers (now st).
Proof.
  induction m as [|m IH]; intros suf Hm pre done acc st fuel c i n Hl Hi Hn Hfm Hf HI.
  - destruct suf; [|simpl in Hm; lia].
    exists acc, st. simpl in Hn. rewrite app_nil_r.
    replace n with i by lia.
    destruct fuel; simpl; rewrite Nat.eqb_refl; auto.
  - destruct suf as [|x t].
    + exists acc, st. simpl in Hn. rewrite app_nil_r.
      replace n with i by lia.
      destruct fuel; simpl; rewrite Nat.eqb_refl; auto.
    + simpl in Hfm. destruct (p x) eqn:Hp; [clear Hfm | discriminate].
      simpl in Hm, Hf, Hn.
      destruct fuel as [|fuel]; [lia |].
      simpl for_loop.
      replace (Nat.eqb i n) with false by (symmetry; apply Nat.eqb_neq; lia).
      unfold bind.
      rewrite deref_law, Hl, Hi, nth_error_middle.
      destruct (@body_ok done acc x (ticks (cost b) st)) as (acc1 & st1 & Hb & HI1 & Hn1);
        [now apply inv_ticks | exact Hp |].
      rewrite Hb, incr_law, end_law.
      rewrite numbers_ticks in Hn1.
      assert (Hl1 : elems b (numbers (now st1)) = (pre ++ [x]) ++ t)
        by (rewrite Hn1, Hl, <- app_assoc; reflexivity).
      rewrite Hl1.
      destruct (@find_if_at b p t (pre ++ [x]) st1
                  (List.length ((pre ++ [x]) ++ t) - S (List.length pre))
                  (S (List.length pre)) (List.length ((pre ++ [x]) ++ t)))
        as [k Hk]; auto.
      * rewrite length_app. simpl. lia.
      * rewrite !length_app. simpl. lia.
      * rewrite !length_app. simpl. lia.
      * rewrite Hk.
        set (j := first_match p t) in *.
        assert (Hj : j <= List.length t) by apply first_match_le.
        destruct (IH (skipn j t)
                    ltac:(rewrite length_skipn; lia)
                    ((pre ++ [x]) ++ firstn j t) (done ++ [x]) acc1 (ticks k st1)
                    fuel c (S (List.length pre) + j) n)
          as (acc2 & st2 & Hr & HI2 & Hn2).
        -- rewrite numbers_ticks, Hl1, <- (app_assoc (pre ++ [x])), firstn_skipn.
           reflexivity.
        -- rewrite !length_app, length_firstn. simpl. lia.
        -- rewrite length_skipn. lia.
        -- apply first_match_skipn.
        -- rewrite length_skipn. lia.
        -- now apply inv_ticks.
        -- exists acc2, st2. rewrite Hr. unfold j in HI2.
           rewrite filter_skipn_first_match, <- app_assoc in HI2.
           simpl. rewrite Hp.
           rewrite numbers_ticks in Hn2.
           repeat split; [exact HI2 | congruence].
Qed.

(** A range-based [for] over a filter view hands exactly the elements
    that satisfy the predicate to the body, in order, and ends; the
    view is left with [begin] cached.  It holds for a fresh view and for
    one whose cache was filled by an earlier [begin]. *)
Lemma range_for_filter :
  forall c acc st,
    c = None \/ c = Some (first_match p (elems b (numbers (now st)))) ->
    Inv [] acc st ->
    exists acc' st',
      range_for {| f_base := b; f_pred := p; f_cached_begin := c |} body acc st
      = Done (acc',
              {| f_base := b; f_pred := p;
                 f_cached_begin := Some (first_match p (elems b (numbers (now st)))) |})
             st' /\
      Inv (filter p (elems b (numbers (now st)))) acc' st' /\
      numbers (now st') = numbers (now st).
Proof.
  intros c acc st Hc HI.
  set (l := elems b (numbers (now st))) in *.
  set (j := first_match p l) in *.
  assert (Hj : j <= List.length l) by apply first_match_le.
  assert (Hloop : forall k c',
    exists acc' st',
      for_loop (List.length l - j)
        {| f_base := b; f_pred := p; f_cached_begin := c' |}
        j (List.length l) body acc (ticks k st) = Done acc' st' /\
      Inv (filter p l) acc' st' /\
      numbers (now st') = numbers (now st)).
  { intros k c'.
    destruct (@for_loop_filter (List.length (skipn j l)) (skipn j l) (le_n _)
                (firstn j l) [] acc (ticks k st) (List.length l - j) c'
                j (List.length l))
      as (acc' & st' & Hr & HI' & Hn).
    - rewrite numbers_ticks, firstn_skipn. reflexivity.
    - rewrite length_firstn. lia.
    - rewrite length_skipn. lia.
    - apply first_match_skipn.
    - rewrite length_skipn. lia.
    - now apply inv_ticks.
    - exists acc', st'. rewrite Hr.
      unfold j in HI'. rewrite filter_skipn_first_match in HI'.
      rewrite numbers_ticks in Hn. auto. }
  unfold range_for, bind. simpl begin_.
  destruct Hc as [-> | ->].
  - unfold bind. rewrite begin_law, end_law. fold l.
    destruct (@find_if_at b p l [] st (List.length l - 0) 0 (List.length l))
      as [k Hk]; auto; [lia |].
    rewrite Hk. simpl Nat.add. fold j.
    unfold ret at 1. simpl end_. rewrite end_law, numbers_ticks. fold l.
    destruct (Hloop k (Some j)) as (acc' & st' & Hr & HI' & Hn).
    rewrite Hr. exists acc', st'. auto.
  - unfold ret at 1. simpl end_. rewrite end_law. fold l.
    destruct (Hloop 0 (Some j)) as (acc' & st' & Hr & HI' & Hn).
    simpl ticks in Hr. rewrite Hr. exists acc', st'. auto.
Qed.

End FilterLoops.

(** ** What a full iteration collects *)

Lemma collect_indexed {V E} `{Indexed V E} (v : V) (st : state) :
  collect v st
  = Done (elems v (numbers (now st)), v)
         (ticks (List.length (elems v (numbers (now st))) * cost v) st).
Proof.
  destruct (@range_for_indexed V E _ _ (list E) (fun acc n => ret (acc ++ [n]))
              (fun done acc st' =>
                 acc = done /\ st' = ticks (List.length done * cost v) st)
              v) with (acc := @nil E) (st := st)
    as (acc' & st' & Hr & [Ha Hs] & _).
  - intros done acc x st0 [-> ->].
    exists (done ++ [x]), (ticks (cost v) (ticks (List.length done * cost v) st)).
    repeat split.
    + rewrite ticks_add, length_app. simpl. f_equal. lia.
    + now rewrite numbers_ticks.
  - split; reflexivity.
  - unfold collect. rewrite Hr, Ha, Hs. reflexivity.
Qed.

Lemma collect_filter {V B} `{Indexed V B} (b : V) (p : B -> bool)
    (c : option nat) (st : state) :
  c = None \/ c = Some (first_match p (elems b (numbers (now st)))) ->
  exists k,
    collect {| f_base := b; f_pred := p; f_cached_begin := c |} st
    = Done (filter p (elems b (numbers (now st))),
            {| f_base := b; f_pred := p;
               f_cached_begin := Some (first_match p (elems b (numbers (now st)))) |})
           (ticks k st).
Proof.
  intros Hc.
  destruct (@range_for_filter V B _ _ (list B) (fun acc n => ret (acc ++ [n]))
              (fun done acc st' => acc = done /\ exists k, st' = ticks k st)
              b p) with (c := c) (acc := @nil B) (st := st)
    as (acc' & st' & Hr & [Ha [k Hs]] & _).
  - intros done acc st0 [-> [k ->]]. split; [reflexivity | now exists (S k)].
  - intros done acc x st0 [-> [k ->]] _.
    exists (done ++ [x]), (ticks k st). repeat split. now exists k.
  - exact Hc.
  - split; [reflexivity | now exists 0].
  - exists k. unfold collect. rewrite Hr, Ha, Hs. reflexivity.
Qed.

(** ** What [print_all] writes *)

Lemma append_assoc (a b c : string) :
  ((a ++ b) ++ c)%string = (a ++ (b ++ c))%string.
Proof. induction a as [|ch a IH]; simpl; [reflexivity | now rewrite IH]. Qed.

Lemma append_empty_r (a : string) : (a ++ "")%string = a.
Proof. induction a as [|ch a IH]; simpl; [reflexivity | now rewrite IH]. Qed.

Lemma render_app (l : list Z) (x : Z) :
  render (l ++ [x]) = (render l ++ Int.to_string x ++ " ")%string.
Proof.
  induction l as [|y t IH]; simpl.
  - reflexivity.
  - rewrite IH. now rewrite !append_assoc.
Qed.

Section Printing.

Variable st0 : state.

Lemma printed_start : printed st0 [] tt st0.
Proof. split; [simpl; now rewrite append_empty_r | reflexivity]. Qed.

Lemma printed_tick done acc st :
  printed st0 done acc st -> printed st0 done acc (step_state count_call st).
Proof. intros [Hc Hn]. split; assumption. Qed.

Lemma printed_body done acc x st :
  printed st0 done acc st ->
  exists acc' st',
    (put_int x ;; put_char " "%char) st = Done acc' st' /\
    printed st0 (done ++ [x]) acc' st' /\
    numbers (now st') = numbers (now st).
Proof.
  intros [Hc Hn]. eexists; eexists. split; [reflexivity |].
  split; [split |]; simpl; auto.
  rewrite Hc, render_app, !append_assoc. reflexivity.
Qed.

Lemma print_all_indexed {V} `{Indexed V Z} (v : V) :
  exists st',
    print_all v st0 = Done (tt, v) st' /\
    cout (now st') = (cout (now st0) ++ render (elems v (numbers (now st0))))%string /\
    numbers (now st') = numbers (now st0).
Proof.
  destruct (@range_for_indexed V Z _ _ unit
              (fun _ n => put_int n ;; put_char " "%char) (printed st0) v)
    with (acc := tt) (st := st0) as ([] & st' & Hr & [Hc Hn] & _).
  - intros done acc x st [Hc Hn].
    destruct (@printed_body done acc x (ticks (cost v) st))
      as (acc' & st' & Hb & Hp & Hn').
    + split; [now rewrite cout_ticks | now rewrite numbers_ticks].
    + exists acc', st'. rewrite numbers_ticks in Hn'. auto.
  - apply printed_start.
  - exists st'. auto.
Qed.

Lemma print_all_filter {V} `{Indexed V Z} (b : V) (p : Z -> bool) :
  exists st' v',
    print_all (filter_ b p) st0 = Done (tt, v') st' /\
    cout (now st') =
      (cout (now st0) ++ render (filter p (elems b (numbers (now st0)))))%string /\
    numbers (now st') = numbers (now st0).
Proof.
  destruct (@range_for_filter V Z _ _ unit
              (fun _ n => put_int n ;; put_char " "%char) (printed st0) b p)
    with (c := @None nat) (acc := tt) (st := st0)
    as ([] & st' & Hr & [Hc Hn] & _).
  - apply printed_tick.
  - intros done acc x st Hp _. exact (printed_body x Hp).
  - now left.
  - apply printed_start.
  - exists st'. eexists. split; [exact Hr | auto].
Qed.

End Printing.

(** ** Arithmetic of [int] *)

Lemma wrap_in_range (z : Z) : Int.in_range z -> Int.wrap z = z.
Proof.
  unfold Int.in_range, Int.wrap, Int.min_int, Int.max_int, Int.modulus,
    Int.half_modulus.
  intros Hz. rewrite Z.mod_small; lia.
Qed.

Lemma square_exact (n : Z) : Int.in_range (n * n) -> square n = (n * n)%Z.
Proof. intros Hz. unfold square. simpl. unfold Int.mul. now apply wrap_in_range. Qed.

Lemma is_even_rem (x : Z) : is_even x = true <-> Z.rem x 2 = 0%Z.
Proof. unfold is_even, Int.rem. apply Z.eqb_eq. Qed.

Lemma is_even_even (x : Z) : is_even x = Z.even x.
Proof.
  apply Bool.eq_true_iff_eq.
  rewrite is_even_rem, Z.even_spec, Z.rem_divide by lia.
  split; intros [m Hm]; exists m; lia.
Qed.

Lemma even_wrap (z : Z) : Z.even (Int.wrap z) = Z.even z.
Proof.
  unfold Int.wrap, Int.modulus, Int.half_modulus.
  rewrite Z.mod_eq by lia.
  replace (z + 2 ^ 31 - 2 ^ 32 * ((z + 2 ^ 31) / 2 ^ 32) - 2 ^ 31)%Z
    with (z + 2 * (- 2 ^ 31 * ((z + 2 ^ 31) / 2 ^ 32)))%Z by lia.
  apply Z.even_add_mul_2.
Qed.

(** The square of an [int] is even exactly when the [int] is. *)
Lemma is_even_square (n : Z) : is_even (square n) = is_even n.
Proof.
  rewrite !is_even_even. unfold square. simpl. unfold Int.mul.
  rewrite even_wrap, Z.even_mul. apply Bool.orb_diag.
Qed.

Lemma filter_map_square (s : list Z) :
  filter is_even (map square s) = map square (filter is_even s).
Proof.
  induction s as [|n t IH]; cbn [filter map]; [reflexivity |].
  rewrite is_even_square. destruct (is_even n); cbn [map]; now rewrite IH.
Qed.

Lemma filter_subsequence {E} (p : E -> bool) (l : list E) :
  subsequence (filter p l) l.
Proof.
  induction l as [|x t IH]; simpl; [constructor |].
  destruct (p x); now constructor.
Qed.

Lemma main_run : main boot = Done 0%Z final_state.
Proof. vm_compute. reflexivity. Qed.

(** ** The run of the program *)

Example to_string_examples :
  Int.to_string 16 = "16"%string /\ Int.to_string 0 = "0"%string /\
  Int.to_string (-7) = "-7"%string.
Proof. repeat split; reflexivity. Qed.

(** C1. Run on its literal input {1,2,3,4,5}, the program returns 0 and
    standard output is exactly the two lines
    "Squared Numbers: 1 4 9 16 25 " and "Even Squared Numbers: 4 16 ",
    each ended by a newline; each line is its label followed by the
    decimal text of every element with one space after it, the last
    element included. *)
Theorem main_writes_two_lines :
  exists st,
    main boot = Done 0%Z st /\
    cout (now st) =
      ("Squared Numbers: 1 4 9 16 25 " ++ String newline
       ("Even Squared Numbers: 4 16 " ++ String newline ""))%string /\
    cout (now st) =
      (("Squared Numbers: " ++ render [1; 4; 9; 16; 25]%Z ++ String newline "") ++
       ("Even Squared Numbers: " ++ render [4; 16]%Z ++ String newline ""))%string /\
    render [1; 4; 9; 16; 25]%Z =
      (Int.to_string 1 ++ " " ++ Int.to_string 4 ++ " " ++ Int.to_string 9 ++ " " ++
       Int.to_string 16 ++ " " ++ Int.to_string 25 ++ " ")%string /\
    render [4; 16]%Z = (Int.to_string 4 ++ " " ++ Int.to_string 16 ++ " ")%string /\
    newline = "010"%char.
Proof.
  exists final_state. split; [exact main_run |].
  repeat split; reflexivity.
Qed.

(** C2. The squared sequence produced from the source sequence
    {1,2,3,4,5} is {1,4,9,16,25}, in that order. *)
Theorem squared_numbers_of_source (st : state) :
  numbers (now st) = source ->
  exists st',
    collect squared_numbers st = Done ([1; 4; 9; 16; 25]%Z, squared_numbers) st'.
Proof.
  intros Hn. eexists. rewrite collect_indexed. simpl elems. rewrite Hn.
  reflexivity.
Qed.

Lemma squared_numbers_of_source_witness :
  numbers (now (step_state (construct source) boot)) = source /\
  exists st',
    collect squared_numbers (step_state (construct source) boot)
    = Done ([1; 4; 9; 16; 25]%Z, squared_numbers) st'.
Proof.
  split; [reflexivity | apply squared_numbers_of_source; reflexivity].
Defined.

(** C3. When the squared sequence is {1,4,9,16,25}, the even-filtered
    sequence produced from it is {4,16}, in that order. *)
Theorem even_squared_numbers_of_squares (st st1 : state)
    (v : transform_view ref_view Z Z) :
  collect squared_numbers st = Done ([1; 4; 9; 16; 25]%Z, v) st1 ->
  (exists v2 st2, collect even_squared_numbers st = Done ([4; 16]%Z, v2) st2) /\
  (exists v2 st2, collect even_squared_numbers st1 = Done ([4; 16]%Z, v2) st2).
Proof.
  rewrite collect_indexed. intros Heq.
  injection Heq as Hl' _ Hs.
  assert (Hl : elems squared_numbers (numbers (now st)) = [1; 4; 9; 16; 25]%Z)
    by exact Hl'.
  assert (Hl1 : elems squared_numbers (numbers (now st1)) = [1; 4; 9; 16; 25]%Z)
    by (rewrite <- Hs, numbers_ticks; exact Hl).
  split.
  - destruct (@collect_filter _ _ _ _ squared_numbers is_even None st) as [k Hk];
      [now left |].
    rewrite Hl in Hk. simpl filter in Hk. do 2 eexists. exact Hk.
  - destruct (@collect_filter _ _ _ _ squared_numbers is_even None st1) as [k Hk];
      [now left |].
    rewrite Hl1 in Hk. simpl filter in Hk. do 2 eexists. exact Hk.
Qed.

Lemma even_squared_numbers_of_squares_witness :
  let st := step_state (construct source) boot in
  collect squared_numbers st = Done ([1; 4; 9; 16; 25]%Z, squared_numbers) (ticks 5 st) /\
  (exists v2 st2, collect even_squared_numbers st = Done ([4; 16]%Z, v2) st2) /\
  (exists v2 st2, collect even_squared_numbers (ticks 5 st) = Done ([4; 16]%Z, v2) st2).
Proof.
  split; [reflexivity |].
  apply (@even_squared_numbers_of_squares _ (ticks 5 (step_state (construct source) boot))
           squared_numbers).
  reflexivity.
Defined.

(** ** The filter and transform operations *)

(** Every finite list of any type is the content of some view over the
    vector, so the laws below speak of every finite input sequence. *)
Lemma every_list_is_a_view {E} (l : list E) (d : E) :
  exists (f : Z -> E) (s : list Z),
    elems (transform RefView f) s = l.
Proof.
  exists (fun z => nth (Z.to_nat z) l d), (map Z.of_nat (seq 0 (List.length l))).
  simpl. rewrite map_map.
  apply nth_ext with (d := d) (d' := d).
  - now rewrite length_map, length_seq.
  - intros n Hn. rewrite length_map, length_seq in Hn.
    rewrite (nth_indep _ d (nth (Z.to_nat (Z.of_nat 0)) l d))
      by (now rewrite length_map, length_seq).
    rewrite (map_nth (fun x => nth (Z.to_nat (Z.of_nat x)) l d)).
    rewrite seq_nth by exact Hn. simpl. now rewrite Nat2Z.id.
Qed.

(** C4. For every finite input sequence and every predicate, a full
    iteration of the filter view ends and yields exactly the elements of
    the input that satisfy the predicate, in the input's order: nothing
    is added, dropped wrongly or moved. *)
Theorem filter_yields_matching_in_order {V B} `{Indexed V B}
    (b : V) (p : B -> bool) (st : state) :
  exists input st1 out v' st2,
    collect b st = Done (input, b) st1 /\
    collect (filter_ b p) st = Done (out, v') st2 /\
    out = filter p input /\
    (forall x, In x out <-> In x input /\ p x = true) /\
    subsequence out input /\
    List.length out <= List.length input.
Proof.
  destruct (@collect_filter V B _ _ b p None st) as [k Hk]; [now left |].
  exists (elems b (numbers (now st))). eexists.
  exists (filter p (elems b (numbers (now st)))). do 2 eexists.
  split; [apply collect_indexed |].
  split; [exact Hk |].
  split; [reflexivity |].
  split; [intros x; apply filter_In |].
  split; [apply filter_subsequence | apply filter_length_le].
Qed.

(** C5. For every finite input sequence and every function f, a full
    iteration of the transform view yields as many elements as the input
    has, the i-th being f of the i-th input element; reading an element
    invokes f every time it is read, so a second full iteration yields
    the same elements and invokes f once more for each of them. *)
Theorem transform_applies_f_on_every_read {V B C} `{Indexed V B}
    (b : V) (f : B -> C) (st : state) :
  exists input st1 out st2 st3,
    collect b st = Done (input, b) st1 /\
    collect (transform b f) st = Done (out, transform b f) st2 /\
    List.length out = List.length input /\
    (forall i, nth_error out i = option_map f (nth_error input i)) /\
    calls (now st2) = calls (now st) + List.length input * S (cost b) /\
    collect (transform b f) st2 = Done (out, transform b f) st3 /\
    calls (now st3) = calls (now st2) + List.length input * S (cost b) /\
    (forall i x st',
        numbers (now st') = numbers (now st) ->
        nth_error input i = Some x ->
        deref (transform b f) i st' = Done (f x) (ticks (S (cost b)) st')).
Proof.
  exists (elems b (numbers (now st))). eexists.
  exists (map f (elems b (numbers (now st)))). do 2 eexists.
  split; [apply collect_indexed |].
  split; [rewrite (collect_indexed (transform b f)); reflexivity |].
  split; [apply length_map |].
  split; [intros i; apply nth_error_map |].
  split; [rewrite calls_ticks; simpl; now rewrite length_map |].
  split.
  - rewrite (collect_indexed (transform b f)), numbers_ticks. reflexivity.
  - split.
    + rewrite !calls_ticks. simpl. now rewrite length_map.
    + intros i x st' Hn Hx.
      rewrite (deref_law (transform b f)). simpl.
      rewrite Hn, nth_error_map, Hx. reflexivity.
Qed.

Lemma find_if_vector_pure (p : Z -> bool) :
  forall fuel first last st j st',
    find_if fuel RefView first last p st = Done j st' -> st' = st.
Proof.
  induction fuel as [|fuel IH]; intros first last st j st'; simpl;
    destruct (Nat.eqb first last); unfold ret, out_of_fuel;
    try congruence.
  unfold bind, get.
  destruct (nth_error (numbers (now st)) first) as [x|];
    unfold ret, undefined; [|discriminate].
  destruct (p x); [congruence | apply IH].
Qed.

(** C6. For every integer x, negative ones included, the predicate of
    the filter stage is true exactly when x modulo 2 is 0; evaluating
    it changes nothing: a search of the vector with it leaves the state
    as it was. *)
Theorem is_even_iff_mod_2 (x : Z) :
  (is_even x = true <-> (x mod 2)%Z = 0%Z) /\
  (is_even x = true <-> Z.rem x 2 = 0%Z) /\
  (is_even x = false <-> (x mod 2)%Z = 1%Z) /\
  (forall fuel first last st j st',
      find_if fuel RefView first last is_even st = Done j st' -> st' = st).
Proof.
  split; [|split; [apply is_even_rem | split; [|apply find_if_vector_pure]]].
  - rewrite is_even_even, Z.even_spec. split.
    + intros [m ->]. rewrite Z.mul_comm. apply Z.mod_mul. lia.
    + intros Hm. exists (x / 2)%Z. pose proof (Z.div_mod x 2). lia.
  - rewrite is_even_even, <- Z.negb_odd, Bool.negb_false_iff, Z.odd_spec. split.
    + intros [m ->]. rewrite Z.add_comm, Z.mul_comm, Z.mod_add by lia. reflexivity.
    + intros Hm. exists (x / 2)%Z. pose proof (Z.div_mod x 2). lia.
Qed.

(** C7. Iterating the squared sequence twice from the start yields the
    same values both times, and so does iterating the even-squared
    sequence twice: an iteration does not change what the next one
    yields. *)
Theorem iterating_twice_yields_the_same (st : state) :
  (exists l st1 st2,
      collect squared_numbers st = Done (l, squared_numbers) st1 /\
      collect squared_numbers st1 = Done (l, squared_numbers) st2) /\
  (exists l v1 st1 v2 st2,
      collect even_squared_numbers st = Done (l, v1) st1 /\
      collect v1 st1 = Done (l, v2) st2).
Proof.
  split.
  - do 3 eexists. split; [apply collect_indexed |].
    rewrite collect_indexed, numbers_ticks. reflexivity.
  - destruct (@collect_filter _ _ _ _ squared_numbers is_even None st) as [k Hk];
      [now left |].
    destruct (@collect_filter _ _ _ _ squared_numbers is_even
                (Some (first_match is_even (elems squared_numbers (numbers (now st)))))
                (ticks k st)) as [k' Hk'].
    { right. now rewrite numbers_ticks. }
    rewrite numbers_ticks in Hk'.
    do 5 eexists. split; [exact Hk | exact Hk'].
Qed.

(** ** Invariants of the run *)

Lemma trail_of_run : Forall (fun w => numbers w = source) (trail final_state).
Proof. unfold final_state. simpl trail. repeat constructor. Qed.

(** In any world the even-squared sequence is no longer than the squared
    sequence, which is as long as the vector; a cached [begin] changes
    nothing. *)
Lemma lengths_at (w : world) :
  exists a b,
    seq_length even_squared_numbers w = Some a /\
    seq_length
      (cached even_squared_numbers
         (first_match is_even (elems squared_numbers (numbers w)))) w = Some a /\
    seq_length squared_numbers w = Some b /\
    a <= b /\
    b = List.length (numbers w).
Proof.
  destruct (@collect_filter _ _ _ _ squared_numbers is_even None
              {| now := w; trail := [] |}) as [k Hk]; [now left |].
  destruct (@collect_filter _ _ _ _ squared_numbers is_even
              (Some (first_match is_even (elems squared_numbers (numbers w))))
              {| now := w; trail := [] |}) as [k' Hk']; [now right |].
  cbn [now] in Hk, Hk'.
  exists (List.length (filter is_even (elems squared_numbers (numbers w)))),
    (List.length (elems squared_numbers (numbers w))).
  unfold seq_length.
  unfold even_squared_numbers, filter_, cached. cbn [f_base f_pred].
  rewrite Hk, Hk', collect_indexed.
  repeat split.
  - apply filter_length_le.
  - simpl. apply length_map.
Qed.

(** C8. At every point of the run, the even-squared sequence is at most
    as long as the squared sequence, and the squared sequence is as long
    as the source sequence, which has 5 elements. *)
Theorem lengths_hold_along_the_run :
  exists st,
    main boot = Done 0%Z st /\
    In (now st) (trail st) /\
    Forall
      (fun w =>
         exists a b,
           seq_length even_squared_numbers w = Some a /\
           seq_length (cached even_squared_numbers 1) w = Some a /\
           seq_length squared_numbers w = Some b /\
           a <= b /\
           b = List.length (numbers w) /\
           List.length (numbers w) = 5)
      (trail st).
Proof.
  exists final_state. split; [exact main_run |].
  split; [now left |].
  eapply Forall_impl; [|exact trail_of_run].
  intros w Hw. cbv beta in Hw.
  destruct (lengths_at w) as (a & b & Ha & Hc & Hb & Hab & Hlen).
  rewrite Hw in Hc. change (first_match is_even (elems squared_numbers source)) with 1 in Hc.
  exists a, b. rewrite Hw in *. repeat split; auto.
Qed.

(** C9. The source sequence is created with the value {1,2,3,4,5} and
    never changed: it has that value at every point of the run and when
    the program ends, after both derived sequences have been iterated and
    printed; and printing or iterating either derived sequence leaves the
    vector as it was, whatever it holds. *)
Theorem source_is_never_mutated :
  (exists st,
      main boot = Done 0%Z st /\
      numbers (now st) = [1; 2; 3; 4; 5]%Z /\
      Forall (fun w => numbers w = [1; 2; 3; 4; 5]%Z) (trail st)) /\
  (forall st,
      (exists st', print_all squared_numbers st = Done (tt, squared_numbers) st' /\
                   numbers (now st') = numbers (now st)) /\
      (exists v' st', print_all even_squared_numbers st = Done (tt, v') st' /\
                      numbers (now st') = numbers (now st)) /\
      (exists l st', collect squared_numbers st = Done (l, squared_numbers) st' /\
                     numbers (now st') = numbers (now st)) /\
      (exists l v' st', collect even_squared_numbers st = Done (l, v') st' /\
                        numbers (now st') = numbers (now st))).
Proof.
  split.
  - exists final_state. split; [exact main_run |].
    split; [reflexivity | exact trail_of_run].
  - intros st. repeat split.
    + destruct (print_all_indexed st squared_numbers) as (st' & Hr & _ & Hn).
      exists st'. auto.
    + destruct (print_all_filter st squared_numbers is_even) as (st' & v' & Hr & _ & Hn).
      exists v', st'. auto.
    + do 2 eexists. split; [apply collect_indexed | apply numbers_ticks].
    + destruct (@collect_filter _ _ _ _ squared_numbers is_even None st) as [k Hk];
        [now left |].
      do 3 eexists. split; [exact Hk | apply numbers_ticks].
Qed.

(** C10. For every finite sequence of integers in the vector, filtering
    the squares by evenness gives the squares of the even elements,
    because the square of an integer is even exactly when the integer is;
    so every element of the even-squared sequence is the square of an
    even source element. *)
Theorem even_squares_are_squares_of_evens (st : state) :
  exists out v' st',
    collect even_squared_numbers st = Done (out, v') st' /\
    out = filter is_even (map square (numbers (now st))) /\
    out = map square (filter is_even (numbers (now st))) /\
    (forall y, In y out ->
       exists x, In x (numbers (now st)) /\ is_even x = true /\ y = square x) /\
    (forall s : list Z, filter is_even (map square s) = map square (filter is_even s)) /\
    (forall n : Z, is_even (square n) = is_even n).
Proof.
  destruct (@collect_filter _ _ _ _ squared_numbers is_even None st) as [k Hk];
    [now left |].
  do 3 eexists. split; [exact Hk |].
  split; [reflexivity |].
  split; [apply filter_map_square |].
  split; [|split; [exact filter_map_square | exact is_even_square]].
  intros y Hy. change (elems squared_numbers (numbers (now st)))
    with (map square (numbers (now st))) in Hy.
  rewrite filter_map_square in Hy.
  apply in_map_iff in Hy. destruct Hy as (x & Hx & Hin).
  apply filter_In in Hin. destruct Hin as [Hin Hev].
  exists x. auto.
Qed.

(** * Further properties of the code *)

(** ** Reads of a filter view, counted *)

Lemma reads_split {E} (p : E -> bool) (l : list E) :
  examined p l + reads_from p (skipn (first_match p l) l)
  = List.length l + List.length (filter p l).
Proof.
  induction l as [|x t IH]; [reflexivity |].
  cbn [examined first_match filter]. destruct (p x) eqn:Hp.
  - cbn [skipn reads_from filter]. rewrite Hp. simpl. lia.
  - cbn [skipn List.length]. lia.
Qed.

Lemma examined_le {E} (p : E -> bool) (l : list E) :
  examined p l <= List.length l.
Proof. induction l as [|x t IH]; simpl; [lia | destruct (p x); lia]. Qed.

Section FilterCounted.

Context {V B : Type} `{Indexed V B}.

Variable b : V.
Variable p : B -> bool.

Lemma find_if_counted :
  forall suf pre st fuel i n,
    elems b (numbers (now st)) = pre ++ suf ->
    i = List.length pre ->
    n = i + List.length suf ->
    List.length suf <= fuel ->
    find_if fuel b i n p st
    = Done (i + first_match p suf) (ticks (examined p suf * cost b) st).
Proof.
  induction suf as [|x t IH]; intros pre st fuel i n Hl Hi Hn Hf.
  - simpl in Hn. replace n with i by lia.
    destruct fuel; simpl; rewrite Nat.eqb_refl, Nat.add_0_r; reflexivity.
  - simpl in Hn, Hf. destruct fuel as [|fuel]; [lia |].
    simpl find_if.
    replace (Nat.eqb i n) with false by (symmetry; apply Nat.eqb_neq; lia).
    unfold bind. rewrite deref_law, Hl, Hi, nth_error_middle.
    cbn [first_match examined]. destruct (p x) eqn:Hp.
    + rewrite Nat.add_0_r, Nat.mul_1_l. reflexivity.
    + rewrite incr_law.
      rewrite (IH (pre ++ [x]) (ticks (cost b) st) fuel (S (List.length pre)) n).
      * rewrite ticks_add. f_equal; [lia | f_equal; simpl; lia].
      * rewrite numbers_ticks, Hl, <- app_assoc. reflexivity.
      * rewrite length_app. simpl. lia.
      * lia.
      * lia.
Qed.

Variable S' : Type.
Variable body : S' -> B -> M S'.

(** [Inv k done acc st]: after [k] reads of the base view the elements
    [done] have been handed to the body. *)
Variable Inv : nat -> list B -> S' -> state -> Prop.

Hypothesis inv_read : forall k done acc st,
  Inv k done acc st -> Inv (S k) done acc (ticks (cost b) st).

Hypothesis body_ok : forall k done acc x st,
  Inv k done acc st ->
  p x = true ->
  exists acc' st',
    body acc x st = Done acc' st' /\
    Inv k (done ++ [x]) acc' st' /\
    numbers (now st') = numbers (now st).

Lemma inv_reads : forall e k done acc st,
  Inv k done acc st -> Inv (k + e) done acc (ticks (e * cost b) st).
Proof.
  induction e as [|e IH]; intros k done acc st HI.
  - simpl. now rewrite Nat.add_0_r.
  - replace (S e * cost b) with (cost b + e * cost b) by (simpl; lia).
    rewrite <- ticks_add. replace (k + S e) with (S (k + e)) by lia.
    apply inv_read. now apply IH.
Qed.

Lemma for_loop_filter_counted :
  forall m suf, List.length suf <= m ->
  forall pre k done acc st fuel c i n,
    elems b (numbers (now st)) = pre ++ suf ->
    i = List.length pre ->
    n = i + List.length suf ->
    first_match p suf = 0 ->
    List.length suf <= fuel ->
    Inv k done acc st ->
    exists acc' st',
      for_loop fuel {| f_base := b; f_pred := p; f_cached_begin := c |}
        i n body acc st = Done acc' st' /\
      Inv (k + reads_from p suf) (done ++ filter p suf) acc' st' /\
      numbers (now st') = numbers (now st).
Proof.
  induction m as [|m IH]; intros suf Hm pre k done acc st fuel c i n Hl Hi Hn Hfm Hf HI.
  - destruct suf; [|simpl in Hm; lia].
    exists acc, st. simpl in Hn. simpl reads_from. rewrite app_nil_r, Nat.add_0_r.
    replace n with i by lia.
    destruct fuel; simpl; rewrite Nat.eqb_refl; auto.
  - destruct suf as [|x t].
    + exists acc, st. simpl in Hn. simpl reads_from. rewrite app_nil_r, Nat.add_0_r.
      replace n with i by lia.
      destruct fuel; simpl; rewrite Nat.eqb_refl; auto.
    + simpl in Hfm. destruct (p x) eqn:Hp; [clear Hfm | discriminate].
      simpl in Hm, Hf, Hn.
      destruct fuel as [|fuel]; [lia |].
      simpl for_loop.
      replace (Nat.eqb i n) with false by (symmetry; apply Nat.eqb_neq; lia).
      unfold bind.
      rewrite deref_law, Hl, Hi, nth_error_middle.
      destruct (@body_ok (S k) done acc x (ticks (cost b) st))
        as (acc1 & st1 & Hb & HI1 & Hn1); [now apply inv_read | exact Hp |].
      rewrite Hb, incr_law, end_law.
      rewrite numbers_ticks in Hn1.
      assert (Hl1 : elems b (numbers (now st1)) = (pre ++ [x]) ++ t)
        by (rewrite Hn1, Hl, <- app_assoc; reflexivity).
      rewrite Hl1.
      rewrite (@find_if_counted t (pre ++ [x]) st1
                 (List.length ((pre ++ [x]) ++ t) - S (List.length pre))
                 (S (List.length pre)) (List.length ((pre ++ [x]) ++ t)));
        [| exact Hl1 | rewrite length_app; simpl; lia
         | rewrite !length_app; simpl; lia | rewrite !length_app; simpl; lia].
      pose proof (first_match_le p t) as Hj.
      destruct (IH (skipn (first_match p t) t)
                  ltac:(rewrite length_skipn; lia)
                  ((pre ++ [x]) ++ firstn (first_match p t) t)
                  (S k + examined p t) (done ++ [x]) acc1
                  (ticks (examined p t * cost b) st1)
                  fuel c (S (List.length pre) + first_match p t) n)
        as (acc2 & st2 & Hr & HI2 & Hn2).
      * rewrite numbers_ticks, Hl1, <- (app_assoc (pre ++ [x])), firstn_skipn.
        reflexivity.
      * rewrite !length_app, length_firstn. simpl. lia.
      * rewrite length_skipn. lia.
      * apply first_match_skipn.
      * rewrite length_skipn. lia.
      * now apply inv_reads.
      * exists acc2, st2. rewrite Hr.
        rewrite filter_skipn_first_match, <- app_assoc in HI2.
        pose proof (reads_split p t) as Hsplit.
        cbn [reads_from filter]. rewrite Hp. cbn [List.length].
        replace (k + (List.length t + S (List.length (filter p t))))
          with (S k + examined p t + reads_from p (skipn (first_match p t) t))
          by lia.
        rewrite numbers_ticks in Hn2.
        repeat split; [exact HI2 | congruence].
Qed.

(** The reads of a whole range-based [for] over the filter view: a fresh
    view reads every element once while searching and every match once
    more; a view with [begin] cached starts at the first match. *)
Lemma range_for_filter_counted :
  forall c k acc st,
    c = None \/ c = Some (first_match p (elems b (numbers (now st)))) ->
    Inv k [] acc st ->
    exists acc' st',
      range_for {| f_base := b; f_pred := p; f_cached_begin := c |} body acc st
      = Done (acc',
              {| f_base := b; f_pred := p;
                 f_cached_begin := Some (first_match p (elems b (numbers (now st)))) |})
             st' /\
      Inv (k + match c with
               | None =>
                   List.length (elems b (numbers (now st))) +
                   List.length (filter p (elems b (numbers (now st))))
               | Some j => reads_from p (skipn j (elems b (numbers (now st))))
               end)
          (filter p (elems b (numbers (now st)))) acc' st' /\
      numbers (now st') = numbers (now st).
Proof.
  intros c k acc st Hc HI.
  pose proof (first_match_le p (elems b (numbers (now st)))) as Hj.
  assert (Hloop : forall k' st1 c',
    Inv k' [] acc st1 -> numbers (now st1) = numbers (now st) ->
    exists acc' st',
      for_loop (List.length (elems b (numbers (now st))) -
                first_match p (elems b (numbers (now st))))
        {| f_base := b; f_pred := p; f_cached_begin := c' |}
        (first_match p (elems b (numbers (now st))))
        (List.length (elems b (numbers (now st)))) body acc st1 = Done acc' st' /\
      Inv (k' + reads_from p (skipn (first_match p (elems b (numbers (now st))))
                                (elems b (numbers (now st)))))
          (filter p (elems b (numbers (now st)))) acc' st' /\
      numbers (now st') = numbers (now st)).
  { intros k' st1 c' HI1 Hn1.
    destruct (@for_loop_filter_counted
                (List.length (skipn (first_match p (elems b (numbers (now st))))
                                (elems b (numbers (now st)))))
                (skipn (first_match p (elems b (numbers (now st))))
                   (elems b (numbers (now st)))) (le_n _)
                (firstn (first_match p (elems b (numbers (now st))))
                   (elems b (numbers (now st)))) k' [] acc st1
                (List.length (elems b (numbers (now st))) -
                 first_match p (elems b (numbers (now st)))) c'
                (first_match p (elems b (numbers (now st))))
                (List.length (elems b (numbers (now st)))))
      as (acc' & st' & Hr & HI' & Hn).
    - rewrite Hn1, firstn_skipn. reflexivity.
    - rewrite length_firstn. lia.
    - rewrite length_skipn. lia.
    - apply first_match_skipn.
    - rewrite length_skipn. lia.
    - exact HI1.
    - exists acc', st'. rewrite Hr.
      rewrite filter_skipn_first_match in HI'. simpl app in HI'.
      split; [reflexivity | split; [exact HI' | congruence]]. }
  unfold range_for, bind. simpl begin_.
  destruct Hc as [-> | ->].
  - unfold bind. rewrite begin_law, end_law.
    rewrite (@find_if_counted (elems b (numbers (now st))) [] st
               (List.length (elems b (numbers (now st))) - 0) 0
               (List.length (elems b (numbers (now st)))));
      [| reflexivity | reflexivity | reflexivity | lia].
    simpl Nat.add.
    unfold ret at 1. simpl end_. rewrite end_law, numbers_ticks.
    destruct (Hloop (k + examined p (elems b (numbers (now st))))
                (ticks (examined p (elems b (numbers (now st))) * cost b) st)
                (Some (first_match p (elems b (numbers (now st))))))
      as (acc' & st' & Hr & HI' & Hn);
      [now apply inv_reads | apply numbers_ticks |].
    rewrite Hr. exists acc', st'.
    pose proof (reads_split p (elems b (numbers (now st)))) as Hsplit.
    rewrite <- Nat.add_assoc, Hsplit in HI'. auto.
  - unfold ret at 1. simpl end_. rewrite end_law.
    destruct (Hloop k st (Some (first_match p (elems b (numbers (now st))))))
      as (acc' & st' & Hr & HI' & Hn); [exact HI | reflexivity |].
    rewrite Hr. exists acc', st'. auto.
Qed.

End FilterCounted.

Lemma collect_filter_counted {V B} `{Indexed V B} (b : V) (p : B -> bool)
    (c : option nat) (st : state) :
  c = None \/ c = Some (first_match p (elems b (numbers (now st)))) ->
  collect {| f_base := b; f_pred := p; f_cached_begin := c |} st
  = Done (filter p (elems b (numbers (now st))),
          {| f_base := b; f_pred := p;
             f_cached_begin := Some (first_match p (elems b (numbers (now st)))) |})
         (ticks (match c with
                 | None =>
                     List.length (elems b (numbers (now st))) +
                     List.length (filter p (elems b (numbers (now st))))
                 | Some j => reads_from p (skipn j (elems b (numbers (now st))))
                 end * cost b) st).
Proof.
  intros Hc.
  destruct (@range_for_filter_counted V B _ _ b p (list B)
              (fun acc n => ret (acc ++ [n]))
              (fun k done acc st' => acc = done /\ st' = ticks (k * cost b) st))
    with (c := c) (k := 0) (acc := @nil B) (st := st)
    as (acc' & st' & Hr & [Ha Hs] & _).
  - intros k done acc st0 [-> ->]. split; [reflexivity |].
    rewrite ticks_add. reflexivity.
  - intros k done acc x st0 [-> ->] _.
    exists (done ++ [x]), (ticks (k * cost b) st). repeat split.
  - exact Hc.
  - split; reflexivity.
  - unfold collect. rewrite Hr, Ha, Hs. reflexivity.
Qed.

(** ** The printing loops, for any content of the vector *)

Lemma print_all_indexed_counted {V} `{Indexed V Z} (v : V) (st0 : state) :
  exists st',
    print_all v st0 = Done (tt, v) st' /\
    cout (now st') = (cout (now st0) ++ render (elems v (numbers (now st0))))%string /\
    numbers (now st') = numbers (now st0) /\
    calls (now st') =
      calls (now st0) + List.length (elems v (numbers (now st0))) * cost v.
Proof.
  destruct (@range_for_indexed V Z _ _ unit
              (fun _ n => put_int n ;; put_char " "%char)
              (fun done acc st =>
                 printed st0 done acc st /\
                 calls (now st) = calls (now st0) + List.length done * cost v)
              v)
    with (acc := tt) (st := st0) as ([] & st' & Hr & [[Hc Hn] Hk] & _).
  - intros done acc x st [[Hc Hn] Hk].
    eexists. eexists. split; [reflexivity |].
    split; [split; [split |] |]; simpl.
    + rewrite cout_ticks, Hc, render_app, !append_assoc. reflexivity.
    + now rewrite numbers_ticks.
    + rewrite calls_ticks, Hk, length_app. simpl. lia.
    + apply numbers_ticks.
  - split; [apply printed_start | simpl; lia].
  - exists st'. auto.
Qed.

Lemma print_all_filter_counted {V} `{Indexed V Z} (b : V) (p : Z -> bool)
    (st0 : state) :
  exists st',
    print_all (filter_ b p) st0
    = Done (tt, cached (filter_ b p) (first_match p (elems b (numbers (now st0))))) st' /\
    cout (now st') =
      (cout (now st0) ++ render (filter p (elems b (numbers (now st0)))))%string /\
    numbers (now st') = numbers (now st0) /\
    calls (now st') =
      calls (now st0) +
      (List.length (elems b (numbers (now st0))) +
       List.length (filter p (elems b (numbers (now st0))))) * cost b.
Proof.
  destruct (@range_for_filter_counted V Z _ _ b p unit
              (fun _ n => put_int n ;; put_char " "%char)
              (fun k done acc st =>
                 printed st0 done acc st /\
                 calls (now st) = calls (now st0) + k * cost b))
    with (c := @None nat) (k := 0) (acc := tt) (st := st0)
    as ([] & st' & Hr & [[Hc Hn] Hk] & _).
  - intros k done acc st [[Hc Hn] Hk]. split; [split |].
    + now rewrite cout_ticks.
    + now rewrite numbers_ticks.
    + rewrite calls_ticks, Hk. simpl. lia.
  - intros k done acc x st [[Hc Hn] Hk] _.
    eexists. eexists. split; [reflexivity |].
    split; [split; [split |] |]; simpl; auto.
    rewrite Hc, render_app, !append_assoc. reflexivity.
  - now left.
  - split; [apply printed_start | simpl; lia].
  - exists st'. auto.
Qed.

Lemma length_filter_map_square (l : list Z) :
  List.length (filter is_even (map square l)) = List.length (filter is_even l).
Proof. now rewrite filter_map_square, length_map. Qed.

Lemma print_all_squared_numbers (st : state) :
  exists st',
    print_all squared_numbers st = Done (tt, squared_numbers) st' /\
    cout (now st') = (cout (now st) ++ render (map square (numbers (now st))))%string /\
    numbers (now st') = numbers (now st) /\
    calls (now st') = calls (now st) + List.length (numbers (now st)).
Proof.
  destruct (print_all_indexed_counted squared_numbers st) as (st' & Hr & Hc & Hn & Hk).
  exists st'. repeat split; auto.
  rewrite Hk. simpl. rewrite length_map. lia.
Qed.

Lemma print_all_even_squared_numbers (st : state) :
  exists v' st',
    print_all even_squared_numbers st = Done (tt, v') st' /\
    cout (now st') =
      (cout (now st) ++ render (map square (filter is_even (numbers (now st)))))%string /\
    numbers (now st') = numbers (now st) /\
    calls (now st') =
      calls (now st) + List.length (numbers (now st)) +
      List.length (filter is_even (numbers (now st))).
Proof.
  destruct (print_all_filter_counted squared_numbers is_even st)
    as (st' & Hr & Hc & Hn & Hk).
  eexists. exists st'. split; [exact Hr |].
  change (elems squared_numbers (numbers (now st)))
    with (map square (numbers (now st))) in *.
  rewrite filter_map_square in Hc.
  rewrite length_filter_map_square, length_map in Hk.
  repeat split; auto. rewrite Hk. simpl. lia.
Qed.

(** X1. In any state, whatever the vector holds, the first loop ends,
    appends to the output the decimal text of the square of every element
    in order, each followed by one space, leaves the vector as it was and
    calls [square] once per element. *)
Theorem first_loop_prints_every_square (st : state) :
  exists st',
    print_all squared_numbers st = Done (tt, squared_numbers) st' /\
    cout (now st') = (cout (now st) ++ render (map square (numbers (now st))))%string /\
    numbers (now st') = numbers (now st) /\
    calls (now st') = calls (now st) + List.length (numbers (now st)).
Proof.
  destruct (print_all_indexed_counted squared_numbers st) as (st' & Hr & Hc & Hn & Hk).
  exists st'. split; [exact Hr |]. split; [exact Hc |]. split; [exact Hn |].
  rewrite Hk. simpl. rewrite length_map. lia.
Qed.

(** X2. In any state, whatever the vector holds, the second loop ends,
    appends the text of the square of every even element in order and
    nothing else, leaves the vector as it was, and calls [square] once for
    every element plus once more for every even element. *)
Theorem second_loop_prints_squares_of_evens (st : state) :
  exists v' st',
    print_all even_squared_numbers st = Done (tt, v') st' /\
    cout (now st') =
      (cout (now st) ++ render (map square (filter is_even (numbers (now st)))))%string /\
    numbers (now st') = numbers (now st) /\
    calls (now st') =
      calls (now st) + List.length (numbers (now st)) +
      List.length (filter is_even (numbers (now st))).
Proof.
  destruct (print_all_filter_counted squared_numbers is_even st)
    as (st' & Hr & Hc & Hn & Hk).
  eexists. exists st'. split; [exact Hr |].
  change (elems squared_numbers (numbers (now st)))
    with (map square (numbers (now st))) in *.
  rewrite filter_map_square in Hc.
  rewrite length_filter_map_square, length_map in Hk.
  split; [exact Hc |]. split; [exact Hn |].
  rewrite Hk. simpl. lia.
Qed.

(** ** The whole of [main] after the declaration *)

Lemma main_is_init_then_report : main = (vector_init source ;; report).
Proof. reflexivity. Qed.

Lemma report_run (st : state) :
  exists st',
    report st = Done 0%Z st' /\
    cout (now st') = (cout (now st) ++ two_lines (numbers (now st)))%string /\
    numbers (now st') = numbers (now st) /\
    calls (now st') =
      calls (now st) + 2 * List.length (numbers (now st)) +
      List.length (filter is_even (numbers (now st))).
Proof.
  unfold report, bind.
  change (put_string "Squared Numbers: " st)
    with (Done tt (step_state (write "Squared Numbers: ") st)).
  destruct (print_all_squared_numbers (step_state (write "Squared Numbers: ") st))
    as (s2 & Hr2 & Hc2 & Hn2 & Hk2).
  rewrite Hr2.
  change (put_char newline s2)
    with (Done tt (step_state (write (String newline "")) s2)).
  cbv beta iota.
  change (put_string "Even Squared Numbers: "
            (step_state (write (String newline "")) s2))
    with (Done tt (step_state (write "Even Squared Numbers: ")
                     (step_state (write (String newline "")) s2))).
  destruct (print_all_even_squared_numbers
              (step_state (write "Even Squared Numbers: ")
                 (step_state (write (String newline "")) s2)))
    as (v4 & s4 & Hr4 & Hc4 & Hn4 & Hk4).
  rewrite Hr4.
  eexists. split; [reflexivity |].
  cbn [now step_state write numbers cout calls] in *.
  rewrite Hn2 in *.
  split; [| split; [exact (eq_trans Hn4 eq_refl) | lia]].
  rewrite Hc4, Hc2. unfold two_lines.
  rewrite !append_assoc. reflexivity.
Qed.

(** X3. [main] is the declaration of the vector followed by [report];
    whatever the vector holds, the statements of [main] after its
    declaration end with result 0 and append exactly two lines to the
    output: the label and the squares of all elements, then the label and
    the squares of the even elements, each number followed by one space
    and each line by a newline; the vector is left as it was, and
    [square] has been called twice per element plus once more per even
    element. *)
Theorem report_prints_two_lines (st : state) :
  main = (vector_init source ;; report) /\
  exists st',
    report st = Done 0%Z st' /\
    cout (now st') = (cout (now st) ++ two_lines (numbers (now st)))%string /\
    numbers (now st') = numbers (now st) /\
    calls (now st') =
      calls (now st) + 2 * List.length (numbers (now st)) +
      List.length (filter is_even (numbers (now st))).
Proof.
  split; [reflexivity |].
  destruct (report_run st) as (st' & Hr & Hc & Hn & Hk).
  exists st'. auto.
Qed.

(** X4. With an empty vector both loops print nothing: the output gains
    the two labels, each followed directly by a newline, and [square] is
    never called. *)
Theorem report_on_empty_vector (st : state) :
  numbers (now st) = [] ->
  exists st',
    report st = Done 0%Z st' /\
    cout (now st') =
      (cout (now st) ++ "Squared Numbers: " ++ String newline
         ("Even Squared Numbers: " ++ String newline ""))%string /\
    calls (now st') = calls (now st).
Proof.
  intros Hn. destruct (report_run st) as (st' & Hr & Hc & _ & Hk).
  exists st'. rewrite Hn in *. split; [exact Hr |].
  split; [exact Hc | simpl in Hk; lia].
Qed.

Lemma report_on_empty_vector_witness :
  numbers (now boot) = [] /\
  exists st',
    report boot = Done 0%Z st' /\
    cout (now st') =
      (cout (now boot) ++ "Squared Numbers: " ++ String newline
         ("Even Squared Numbers: " ++ String newline ""))%string /\
    calls (now st') = calls (now boot).
Proof.
  split; [reflexivity | apply report_on_empty_vector; reflexivity].
Defined.

(** ** How often a filter view reads its base *)

(** X5. A full iteration of a fresh filter view reads every element of
    its base once to test it and every matching element once more to
    yield it: over the squared view, [square] is called once per element
    plus once per match. *)
Theorem filter_reads_each_element_and_each_match {V B} `{Indexed V B}
    (b : V) (p : B -> bool) (st : state) :
  exists input st0 out v1 st1,
    collect b st = Done (input, b) st0 /\
    collect (filter_ b p) st = Done (out, v1) st1 /\
    out = filter p input /\
    calls (now st1) =
      calls (now st) + (List.length input + List.length out) * cost b.
Proof.
  exists (elems b (numbers (now st))). eexists.
  exists (filter p (elems b (numbers (now st)))). do 2 eexists.
  split; [apply collect_indexed |].
  split; [apply (@collect_filter_counted V B _ _ b p None st); now left |].
  split; [reflexivity | apply calls_ticks].
Qed.

(** X6. A second full iteration of the same filter view starts from the
    cached [begin]: it yields the same elements and leaves the view as it
    is, and it saves exactly the reads the first search made, those of
    the elements up to and including the first match. *)
Theorem cached_begin_saves_the_first_search {V B} `{Indexed V B}
    (b : V) (p : B -> bool) (st : state) :
  exists input st0 out v1 st1 st2,
    collect b st = Done (input, b) st0 /\
    collect (filter_ b p) st = Done (out, v1) st1 /\
    collect v1 st1 = Done (out, v1) st2 /\
    f_cached_begin v1 = Some (first_match p input) /\
    calls (now st1) =
      calls (now st) + (List.length input + List.length out) * cost b /\
    calls (now st2) + examined p input * cost b =
      calls (now st1) + (List.length input + List.length out) * cost b.
Proof.
  exists (elems b (numbers (now st))). eexists.
  exists (filter p (elems b (numbers (now st)))). do 3 eexists.
  split; [apply collect_indexed |].
  split; [apply (@collect_filter_counted V B _ _ b p None st); now left |].
  split.
  - rewrite (@collect_filter_counted V B _ _ b p
               (Some (first_match p (elems b (numbers (now st))))))
      by (right; now rewrite numbers_ticks).
    rewrite numbers_ticks. reflexivity.
  - split; [reflexivity |]. split; [apply calls_ticks |].
    rewrite !calls_ticks.
    pose proof (reads_split p (elems b (numbers (now st)))) as Hs.
    rewrite <- Nat.add_assoc, <- Nat.mul_add_distr_r.
    rewrite (Nat.add_comm (reads_from _ _)), Hs. reflexivity.
Qed.

(** ** Arithmetic of [square] *)

Lemma wrap_range (z : Z) : Int.in_range (Int.wrap z).
Proof.
  unfold Int.in_range, Int.wrap, Int.min_int, Int.max_int, Int.modulus,
    Int.half_modulus.
  pose proof (Z.mod_pos_bound (z + 2 ^ 31) (2 ^ 32)). lia.
Qed.

(** X7. On [int], [square] returns the exact product n * n exactly for
    the values from -46340 to 46340, the ones whose square fits in 32
    bits. *)
Theorem square_exact_iff (n : Z) :
  square n = (n * n)%Z <-> (-46340 <= n <= 46340)%Z.
Proof.
  split.
  - intros Heq. pose proof (wrap_range (n * n)) as Hr.
    change (Int.wrap (n * n)) with (square n) in Hr. rewrite Heq in Hr.
    unfold Int.in_range, Int.min_int, Int.max_int, Int.half_modulus in Hr.
    nia.
  - intros Hn. apply square_exact.
    unfold Int.in_range, Int.min_int, Int.max_int, Int.half_modulus. nia.
Qed.

Lemma filter_empty_iff {E} (p : E -> bool) (l : list E) :
  filter p l = [] <-> forall x, In x l -> p x = false.
Proof.
  induction l as [|y t IH]; simpl.
  - split; [intros _ x [] | reflexivity].
  - destruct (p y) eqn:Hp; split.
    + discriminate.
    + intros Hall. specialize (Hall y (or_introl eq_refl)). congruence.
    + intros Hnil x [<- | Hin]; [exact Hp | now apply IH].
    + intros Hall. apply IH. intros x Hin. apply Hall. now right.
Qed.

(** X8. The even-squared sequence is empty exactly when the vector holds
    no even element (an empty vector included); the iteration still ends
    normally then. *)
Theorem even_squared_numbers_empty_iff (st : state) :
  exists out v' st',
    collect even_squared_numbers st = Done (out, v') st' /\
    (out = [] <-> forall x, In x (numbers (now st)) -> is_even x = false).
Proof.
  destruct (@collect_filter _ _ _ _ squared_numbers is_even None st) as [k Hk];
    [now left |].
  do 3 eexists. split; [exact Hk |].
  change (elems squared_numbers (numbers (now st)))
    with (map square (numbers (now st))).
  rewrite filter_map_square, <- filter_empty_iff.
  split; [apply map_eq_nil | intros ->; reflexivity].
Qed.
